(** * bag_metashape_export: pose interpolation and reference export

    A shallow embedding of [extract_georeferenced_images.py].

    Number model.  The script computes with IEEE doubles through numpy,
    scipy and pandas.  Channel values are modelled here as exact rationals
    ([Qc], canonical fractions, so that equality is Leibniz equality)
    extended with the IEEE special values that numpy produces on a division
    by zero: rounding and overflow are left out, the singular cases are
    kept.  The mission statistics need a cosine and live in a separate
    module over the real numbers. *)

From Equations Require Import Equations.
From Stdlib Require Import ZArith NArith QArith Qcanon List Bool Arith Lia Lra.
From Stdlib Require Import String Ascii.
From Stdlib Require Import Reals Qreals.
From Stdlib Require Import Permutation.
Import ListNotations.

Set Implicit Arguments.

(* ===================================================================== *)
(** ** Numbers *)
(* ===================================================================== *)

Module Float.

(** A double without rounding: a finite rational, an infinity with its
    sign, or NaN. *)
Inductive fnum : Type :=
| Fin (q : Qc)
| Inf (negative : bool)
| NaN.

Definition is_zero (q : Qc) : bool :=
  match (q ?= 0)%Qc with Eq => true | _ => false end.

Definition is_neg (q : Qc) : bool :=
  match (q ?= 0)%Qc with Lt => true | _ => false end.

Definition fneg (a : fnum) : fnum :=
  match a with
  | Fin q => Fin (- q)%Qc
  | Inf s => Inf (negb s)
  | NaN => NaN
  end.

Definition fadd (a b : fnum) : fnum :=
  match a, b with
  | NaN, _ | _, NaN => NaN
  | Fin p, Fin q => Fin (p + q)%Qc
  | Inf s, Fin _ => Inf s
  | Fin _, Inf s => Inf s
  | Inf s, Inf s' => if Bool.eqb s s' then Inf s else NaN
  end.

Definition fsub (a b : fnum) : fnum := fadd a (fneg b).

Definition fmul (a b : fnum) : fnum :=
  match a, b with
  | NaN, _ | _, NaN => NaN
  | Fin p, Fin q => Fin (p * q)%Qc
  | Inf s, Fin q => if is_zero q then NaN else Inf (xorb s (is_neg q))
  | Fin p, Inf s => if is_zero p then NaN else Inf (xorb (is_neg p) s)
  | Inf s, Inf s' => Inf (xorb s s')
  end.

(** numpy division: [0/0] is NaN and [a/0] is an infinity with the sign
    of [a] (the zero divisors met in this program are differences
    [v - v] of one finite value, which are [+0]). *)
Definition fdiv (a b : fnum) : fnum :=
  match a, b with
  | NaN, _ | _, NaN => NaN
  | Fin p, Fin q =>
      if is_zero q then (if is_zero p then NaN else Inf (is_neg p))
      else Fin (p / q)%Qc
  | Fin _, Inf _ => Fin 0%Qc
  | Inf s, Fin q => Inf (xorb s (is_neg q))
  | Inf _, Inf _ => NaN
  end.


(** [float(n)] and [astype(float)] on an integer. *)
Definition of_int (z : Z) : Qc := Q2Qc (inject_Z z).

(** [np.degrees]: multiplication by the double constant [180.0 / pi],
    whose decimal rendering is 57.29577951308232. *)
Definition rad2deg : Qc := Q2Qc (5729577951308232 # 100000000000000).

Definition degrees (a : fnum) : fnum := fmul a (Fin rad2deg).

End Float.
Export Float.

(* ===================================================================== *)
(** ** scipy.interpolate.interp1d, kind='linear', fill_value='extrapolate' *)
(* ===================================================================== *)

Module Interp1d.

(** [np.argsort(x, kind="mergesort")] followed by [x[ind]] and
    [np.take(y, ind)]: a stable sort of the samples on their abscissa.
    The head is put in front of the first element that is not strictly
    smaller, so equal abscissae keep their order. *)
Fixpoint insert_sample (p : Qc * Qc) (l : list (Qc * Qc)) : list (Qc * Qc) :=
  match l with
  | [] => [p]
  | q :: r =>
      match (fst q ?= fst p)%Qc with
      | Lt => q :: insert_sample p r
      | _ => p :: q :: r
      end
  end.

Definition argsort_take (l : list (Qc * Qc)) : list (Qc * Qc) :=
  fold_right insert_sample [] l.

(** The interpolator object: [self.x] and [self.y]. *)
Record interp1d : Type := mk_interp1d {
  self_x : list Qc;
  self_y : list Qc
}.

(** [interp1d.__init__] for [kind='linear'], [assume_sorted=False]:
    the least admitted length is 1, so a one-point table is accepted. *)
Definition init (x y : list Qc) : interp1d :=
  let s := argsort_take (combine x y) in
  {| self_x := map fst s; self_y := map snd s |}.

(** [np.searchsorted(self.x, x_new)] (side 'left') on the sorted
    abscissae: the number of leading entries strictly below [x_new]. *)
Fixpoint searchsorted (xs : list Qc) (x_new : Qc) : Z :=
  match xs with
  | [] => 0
  | x :: r =>
      match (x ?= x_new)%Qc with
      | Lt => 1 + searchsorted r x_new
      | _ => 0
      end
  end.

(** [ndarray.clip(a_min, a_max)] is [minimum(maximum(a, a_min), a_max)]:
    when [a_min > a_max] the result is [a_max]. *)
Definition clip (a a_min a_max : Z) : Z := Z.min (Z.max a a_min) a_max.

(** numpy indexing: a negative index counts from the end. *)
Definition getitem (l : list Qc) (i : Z) : Qc :=
  let n := Z.of_nat (List.length l) in
  nth (Z.to_nat (if (i <? 0)%Z then i + n else i)) l 0%Qc.

(** [interp1d._call_linear] at one query point:
    [x_new_indices = searchsorted(self.x, x_new)],
    [x_new_indices = x_new_indices.clip(1, len(self.x)-1)],
    [lo = x_new_indices - 1], [hi = x_new_indices],
    [slope = (y_hi - y_lo) / (x_hi - x_lo)],
    [y_new = slope*(x_new - x_lo) + y_lo].  With [fill_value='extrapolate']
    nothing is done to the values outside the range of [self.x]. *)
Definition call_linear (self : interp1d) (x_new : Qc) : fnum :=
  let n := Z.of_nat (List.length (self_x self)) in
  let x_new_indices := clip (searchsorted (self_x self) x_new) 1 (n - 1) in
  let lo := (x_new_indices - 1)%Z in
  let hi := x_new_indices in
  let x_lo := getitem (self_x self) lo in
  let x_hi := getitem (self_x self) hi in
  let y_lo := getitem (self_y self) lo in
  let y_hi := getitem (self_y self) hi in
  let slope := fdiv (fsub (Fin y_hi) (Fin y_lo)) (fsub (Fin x_hi) (Fin x_lo)) in
  fadd (fmul slope (fsub (Fin x_new) (Fin x_lo))) (Fin y_lo).

End Interp1d.

(* ===================================================================== *)
(** ** Text: [str(int)], the format [04d], csv fields *)
(* ===================================================================== *)

Module Text.

Local Open Scope N_scope.

Definition digit_char (d : N) : ascii := ascii_of_N (48 + d).

Definition lt10_dec (n : N) : {n < 10} + {10 <= n}.
Proof.
  destruct (n <? 10) eqn:E.
  - left. apply N.ltb_lt. exact E.
  - right. apply N.ltb_ge. exact E.
Defined.

(** [str(n)] for a non-negative integer: its decimal digits, most
    significant first, no leading zero. *)
Equations? str_of_int (n : N) : string by wf (N.to_nat n) lt :=
  str_of_int n with lt10_dec n => {
    | left _ => String (digit_char n) EmptyString;
    | right _ =>
        (str_of_int (n / 10) ++ String (digit_char (n mod 10)) EmptyString)%string }.
Proof.
  assert (n / 10 < n) by (apply N.div_lt; lia). lia.
Qed.

Fixpoint zeros (k : nat) : string :=
  match k with
  | O => EmptyString
  | S k' => String "0"%char (zeros k')
  end.

(** The format specification [04d] on a non-negative integer: zero fill
    on the left up to a minimum width of 4. *)
Definition format_04d (idx : N) : string :=
  let s := str_of_int idx in
  (zeros (4 - String.length s) ++ s)%string.

(** [int(s)] for a string of decimal digits ([None] otherwise). *)
Definition digit_value (c : ascii) : option N :=
  let k := N_of_ascii c in
  if (48 <=? k) && (k <=? 57) then Some (k - 48) else None.

Fixpoint int_of_str_acc (acc : N) (s : string) : option N :=
  match s with
  | EmptyString => Some acc
  | String c r =>
      match digit_value c with
      | Some d => int_of_str_acc (10 * acc + d) r
      | None => None
      end
  end.

Definition int_of_str (s : string) : option N :=
  match s with
  | EmptyString => None
  | _ => int_of_str_acc 0 s
  end.

Fixpoint join (sep : string) (l : list string) : string :=
  match l with
  | [] => EmptyString
  | [a] => a
  | a :: r => (a ++ sep ++ join sep r)%string
  end.

Definition quotechar : ascii := ascii_of_nat 34.
Definition linefeed : ascii := ascii_of_nat 10.

Fixpoint needs_quote (s : string) : bool :=
  match s with
  | EmptyString => false
  | String c r =>
      Ascii.eqb c ","%char || Ascii.eqb c quotechar || Ascii.eqb c linefeed
      || needs_quote r
  end.

Fixpoint double_quotes (s : string) : string :=
  match s with
  | EmptyString => EmptyString
  | String c r =>
      if Ascii.eqb c quotechar
      then String c (String c (double_quotes r))
      else String c (double_quotes r)
  end.

(** The csv writer with minimal quoting: a field holding the delimiter,
    the quote character or the line terminator is quoted, its quote
    characters doubled. *)
Definition csv_field (s : string) : string :=
  if needs_quote s
  then (String quotechar (double_quotes s) ++ String quotechar EmptyString)%string
  else s.

Definition csv_line (cells : list string) : string :=
  join "," (map csv_field cells).

End Text.

(* ===================================================================== *)
(** ** The extraction script *)
(* ===================================================================== *)

Module Extract.

Import Interp1d Text.

(** *** The bag reader *)

(** A deserialised camera message: of a frame only the header stamp
    matters here (decoding the pixels and writing the jpeg are left
    out). *)
Record ImageMessage : Type := mk_ImageMessage {
  header_stamp_sec : Z;
  header_stamp_nanosec : Z
}.

(** The reader as the camera loop sees it: the topics of its
    connections, and its camera messages in the order the bag yields
    them, each with its topic and bag timestamp. *)
Record Reader : Type := mk_Reader {
  connections : list string;
  messages : list (string * Z * ImageMessage)
}.

(** [reader.messages(connections=conns)] for the connections of one
    topic. *)
Definition messages_of (reader : Reader) (topic : string)
  : list (string * Z * ImageMessage) :=
  filter (fun m => String.eqb (fst (fst m)) topic) (messages reader).

Definition has_topic (reader : Reader) (topic : string) : bool :=
  existsb (fun t => String.eqb t topic) (connections reader).

(** *** The tables *)

Record PoseSample : Type := mk_PoseSample {
  pose_timestamp_ns : Z;
  pose_x : Qc;            (* longitude *)
  pose_y : Qc;            (* latitude *)
  pose_depth : Qc;
  pose_altitude_dvl : Qc;
  pose_heading : Qc;
  pose_pitch : Qc;
  pose_roll : Qc
}.

Record ImageRecord : Type := mk_ImageRecord {
  img_filename : string;
  img_timestamp_ns : Z;
  img_bag_timestamp_ns : Z;
  img_index : N
}.

Record MatchedRecord : Type := mk_MatchedRecord {
  m_filename : string;
  m_longitude : fnum;
  m_latitude : fnum;
  m_altitude : fnum;
  m_yaw : fnum;
  m_pitch : fnum;
  m_roll : fnum
}.

(** A data frame is the list of its rows; [df.empty] holds when there is
    no row. *)
Definition empty {A : Type} (df : list A) : bool :=
  match df with [] => true | _ => false end.

(** *** extract_and_save_images *)

Definition image_record (prefix : string) (idx : N)
           (timestamp : Z) (msg : ImageMessage) : ImageRecord :=
  let filename := (prefix ++ "_" ++ format_04d idx ++ ".jpg")%string in
  let header_ts_ns :=
    (header_stamp_sec msg * 1000000000 + header_stamp_nanosec msg)%Z in
  {| img_filename := filename;
     img_timestamp_ns := header_ts_ns;
     img_bag_timestamp_ns := timestamp;
     img_index := idx |}.

(** The loop [for idx, (conn, timestamp, rawdata) in enumerate(...)],
    [idx] being the running counter. *)
Fixpoint enumerate_images (prefix : string) (idx : N)
         (msgs : list (string * Z * ImageMessage)) : list ImageRecord :=
  match msgs with
  | [] => []
  | (_, timestamp, msg) :: rest =>
      image_record prefix idx timestamp msg
        :: enumerate_images prefix (N.succ idx) rest
  end.

Definition extract_and_save_images (reader : Reader) (topic prefix : string)
  : list ImageRecord :=
  if negb (has_topic reader topic) then []
  else enumerate_images prefix 0 (messages_of reader topic).

(** *** interpolate_poses_to_images *)

Definition interpolate_poses_to_images
           (image_df : list ImageRecord) (pose_df : list PoseSample)
  : list MatchedRecord :=
  if empty image_df || empty pose_df then []
  else
    let pose_ts := map (fun p => of_int (pose_timestamp_ns p)) pose_df in
    let interp_x := init pose_ts (map pose_x pose_df) in
    let interp_y := init pose_ts (map pose_y pose_df) in
    let interp_altitude := init pose_ts (map pose_altitude_dvl pose_df) in
    let interp_heading := init pose_ts (map pose_heading pose_df) in
    let interp_pitch := init pose_ts (map pose_pitch pose_df) in
    let interp_roll := init pose_ts (map pose_roll pose_df) in
    map
      (fun img_row =>
         let img_time := of_int (img_bag_timestamp_ns img_row) in
         {| m_filename := img_filename img_row;
            m_longitude := call_linear interp_x img_time;
            m_latitude := call_linear interp_y img_time;
            m_altitude := call_linear interp_altitude img_time;
            m_yaw := degrees (call_linear interp_heading img_time);
            m_pitch := degrees (call_linear interp_pitch img_time);
            m_roll := degrees (call_linear interp_roll img_time) |})
      image_df.

(** *** export_metashape_csv *)

(** What the script does to the file system while exporting. *)
Inductive io_event : Type :=
| ToCsv (path : string) (lines : list string).

Section Csv.

(** The default number-to-text conversion of a finite double, which
    the rational model cannot render; pandas writes NaN as the empty
    field and an infinity as [inf]. *)
Variable float_repr : Qc -> string.

Definition cell_text (v : fnum) : string :=
  match v with
  | Fin q => float_repr q
  | Inf false => "inf"
  | Inf true => "-inf"
  | NaN => EmptyString
  end.

Definition export_columns : list string :=
  ["label"; "longitude"; "latitude"; "altitude"; "yaw"; "pitch"; "roll"]%string.

(** One row of [export_df]: the seven selected columns. *)
Definition export_row (r : MatchedRecord) : list string :=
  [m_filename r; cell_text (m_longitude r); cell_text (m_latitude r);
   cell_text (m_altitude r); cell_text (m_yaw r); cell_text (m_pitch r);
   cell_text (m_roll r)].

(** [export_df.to_csv(output_path, index=False)]: the header line,
    then one line per row. *)
Definition to_csv (rows : list (list string)) : list string :=
  csv_line export_columns :: map csv_line rows.

(** The function returns the frame it was given when that is empty,
    and otherwise the renamed copy, after writing it. *)
Definition export_metashape_csv
           (matched_df : list MatchedRecord) (output_path : string)
  : list (list string) * list io_event :=
  if empty matched_df then ([], [])
  else
    let export_df := map export_row matched_df in
    (export_df, [ToCsv output_path (to_csv export_df)]).

(** One turn of the camera loop of [main]: a camera without images
    is skipped, the others are interpolated and exported. *)
Definition process_camera (reader : Reader) (topic camera_name : string)
           (csv_path : string) (pose_df : list PoseSample)
  : list io_event :=
  let image_df := extract_and_save_images reader topic camera_name in
  if empty image_df then []
  else
    let matched_df := interpolate_poses_to_images image_df pose_df in
    snd (export_metashape_csv matched_df csv_path).

End Csv.

End Extract.

(* ===================================================================== *)
(** ** Mission statistics (the span lines of [main]) *)
(* ===================================================================== *)

Module Stats.

Import Extract.
Local Open Scope R_scope.

(** A column of the pose table as real numbers. *)
Definition column (chan : PoseSample -> Qc) (pose_df : list PoseSample)
  : list R :=
  map (fun p => Q2R (this (chan p))) pose_df.

(** [Series.max()], [Series.min()], [Series.mean()] on a non-empty
    column ([main] leaves before this point when the table is empty). *)
Definition series_max (l : list R) : R :=
  match l with
  | [] => 0
  | a :: r => fold_left Rmax r a
  end.

Definition series_min (l : list R) : R :=
  match l with
  | [] => 0
  | a :: r => fold_left Rmin r a
  end.

Definition series_sum (l : list R) : R := fold_right Rplus 0 l.

Definition series_mean (l : list R) : R :=
  series_sum l / INR (List.length l).

(** [np.radians]. *)
Definition radians (x : R) : R := x * (PI / 180).

(** The location entries of the [stats] dictionary. *)
Record LocationStats : Type := mk_LocationStats {
  lon_min : R;
  lon_max : R;
  lat_min : R;
  lat_max : R;
  lon_span_m : R;
  lat_span_m : R
}.

Definition location_stats (pose_df : list PoseSample) : LocationStats :=
  let xs := column pose_x pose_df in
  let ys := column pose_y pose_df in
  {| lon_min := series_min xs;
     lon_max := series_max xs;
     lat_min := series_min ys;
     lat_max := series_max ys;
     lon_span_m :=
       (series_max xs - series_min xs) * 111000 * cos (radians (series_mean ys));
     lat_span_m := (series_max ys - series_min ys) * 111000 |}.

(** [m] is the greatest (least) entry of a column. *)
Definition greatest (l : list R) (m : R) : Prop :=
  In m l /\ forall v, In v l -> v <= m.

Definition least (l : list R) (m : R) : Prop :=
  In m l /\ forall v, In v l -> m <= v.

End Stats.

(* ===================================================================== *)
(** ** Vocabulary of the specification *)
(* ===================================================================== *)

Module Spec.

Import Interp1d Extract.

(** The pose table is in timestamp order. *)
Fixpoint sorted_by_timestamp (pose_df : list PoseSample) : bool :=
  match pose_df with
  | a :: r =>
      match r with
      | b :: _ => (pose_timestamp_ns a <=? pose_timestamp_ns b)%Z
      | [] => true
      end && sorted_by_timestamp r
  | [] => true
  end.

(** The timestamp column as the interpolators receive it. *)
Definition ts_col (pose_df : list PoseSample) : list Qc :=
  map (fun p => of_int (pose_timestamp_ns p)) pose_df.

(** One channel of the table interpolated at the integer time [t]. *)
Definition channel_value (pose_df : list PoseSample) (t : Z)
           (chan : PoseSample -> Qc) : fnum :=
  call_linear (init (ts_col pose_df) (map chan pose_df)) (of_int t).

(** The closing formula of [_call_linear] once the segment is chosen:
    the line through [(x_lo, y_lo)] and [(x_hi, y_hi)] at [x_new]. *)
Definition segment_value (x_lo y_lo x_hi y_hi x_new : Qc) : fnum :=
  fadd (fmul (fdiv (fsub (Fin y_hi) (Fin y_lo)) (fsub (Fin x_hi) (Fin x_lo)))
             (fsub (Fin x_new) (Fin x_lo)))
       (Fin y_lo).

(** The six interpolated channels of a matched record are given by [f],
    the attitude channels being converted to degrees afterwards. *)
Definition channels_are (r : MatchedRecord)
           (f : (PoseSample -> Qc) -> fnum) : Prop :=
  m_longitude r = f pose_x /\
  m_latitude r = f pose_y /\
  m_altitude r = f pose_altitude_dvl /\
  m_yaw r = degrees (f pose_heading) /\
  m_pitch r = degrees (f pose_pitch) /\
  m_roll r = degrees (f pose_roll).






End Spec.

(* ===================================================================== *)
(** ** Small fixtures *)
(* ===================================================================== *)

Module Fixture.

Import Extract.

(** A pose sample at time [t] with longitude [lon] and latitude [lat]
    (whole degrees), everything else zero. *)
Definition sample_at (t lon lat : Z) : PoseSample :=
  mk_PoseSample t (of_int lon) (of_int lat) 0 0 0 0 0.

(** The first image of the down camera, logged at time [t]. *)
Definition image_at (t : Z) : ImageRecord :=
  mk_ImageRecord "down_0000.jpg" t t 0.

(** A matched record as a table of one sample produces it. *)
Definition nan_record : MatchedRecord :=
  mk_MatchedRecord "down_0000.jpg" NaN NaN NaN NaN NaN NaN.

(** Two samples at times 0 and 10 carrying longitudes 0 and 10. *)
Definition two_samples : list PoseSample :=
  [sample_at 0 0 0; sample_at 10 10 0].

End Fixture.

(* ===================================================================== *)
(** ** The rest of the script: poses, image files, statistics, [main] *)
(* ===================================================================== *)

Module Script.

Import Interp1d Text Extract Stats.

(** *** extract_poses *)

(** A deserialised pose message. *)
Record PoseMessage : Type := mk_PoseMessage {
  msg_x : Qc;
  msg_y : Qc;
  msg_depth : Qc;
  msg_altitudeUsed : Qc;
  msg_heading : Qc;
  msg_pitch : Qc;
  msg_roll : Qc
}.

(** The reader as the pose loop sees it: the topics of its connections
    and its pose messages in the order the bag yields them, each with its
    topic and bag timestamp. *)
Record PoseReader : Type := mk_PoseReader {
  pose_connections : list string;
  pose_messages : list (string * Z * PoseMessage)
}.

Definition POSE_TOPIC : string := "/pose".

Definition pose_sample (timestamp : Z) (msg : PoseMessage) : PoseSample :=
  {| pose_timestamp_ns := timestamp;
     pose_x := msg_x msg;
     pose_y := msg_y msg;
     pose_depth := msg_depth msg;
     pose_altitude_dvl := msg_altitudeUsed msg;
     pose_heading := msg_heading msg;
     pose_pitch := msg_pitch msg;
     pose_roll := msg_roll msg |}.

(** The dictionary appended for one message of the loop. *)
Definition message_sample (m : string * Z * PoseMessage) : PoseSample :=
  pose_sample (snd (fst m)) (snd m).

Definition extract_poses (reader : PoseReader) : list PoseSample :=
  if negb (existsb (fun t => String.eqb t POSE_TOPIC) (pose_connections reader))
  then []
  else
    map message_sample
        (filter (fun m => String.eqb (fst (fst m)) POSE_TOPIC)
                (pose_messages reader)).

(** *** extract_and_save_images, with what it does to the disk and the
    console *)

Inductive image_event : Type :=
| Makedirs (path : string)                       (* os.makedirs(.., exist_ok=True) *)
| WarnNoTopic (topic : string)                   (* the warning line *)
| Imwrite (filepath : string) (jpeg_quality : Z) (* cv2.imwrite *)
| PrintExtracted (count : N).                    (* the progress line *)

Section OsPath.

(** [os.path.join]. *)
Variable os_path_join : string -> string -> string.

(** The body of the loop over the messages of the topic: the record it
    appends, the file it writes, the progress line after every twentieth
    image. *)
Fixpoint image_loop (output_dir prefix : string) (idx : N)
         (msgs : list (string * Z * ImageMessage))
  : list ImageRecord * list image_event :=
  match msgs with
  | [] => ([], [])
  | (_, timestamp, msg) :: rest =>
      let record := image_record prefix idx timestamp msg in
      let filepath := os_path_join output_dir (img_filename record) in
      let progress :=
        if ((idx + 1) mod 20 =? 0)%N then [PrintExtracted (idx + 1)] else [] in
      let '(images, events) := image_loop output_dir prefix (N.succ idx) rest in
      (record :: images, Imwrite filepath 95 :: progress ++ events)
  end.

Definition extract_and_save_images_io
           (reader : Reader) (topic output_dir prefix : string)
  : list ImageRecord * list image_event :=
  if negb (has_topic reader topic)
  then ([], [Makedirs output_dir; WarnNoTopic topic])
  else
    let '(images, events) :=
      image_loop output_dir prefix 0 (messages_of reader topic) in
    (images, Makedirs output_dir :: events).

End OsPath.

(** *** The time and altitude entries of the [stats] dictionary *)








(** *** main *)

(** An entry of [CAMERA_CONFIG]; the dictionary is walked in the order it
    is written. *)
Record CameraConfig : Type := mk_CameraConfig {
  camera_name : string;
  camera_topic : string;
  camera_compressed : bool
}.

Definition CAMERA_CONFIG : list CameraConfig :=
  [ mk_CameraConfig "down" "/science/image_raw" false;
    mk_CameraConfig "forward" "/zed2/zed_node/left/image_rect_color" false ].

(** The bag file as the two loops read it. *)
Record Bag : Type := mk_Bag {
  bag_poses : PoseReader;
  bag_cameras : Reader
}.

Inductive main_event : Type :=
| MkdirParents (path : string)     (* output_base.mkdir(parents=True, exist_ok=True) *)
| OfCamera (e : image_event)       (* inside extract_and_save_images *)
| OfExport (e : io_event)          (* inside export_metashape_csv *)
| Savefig (path : string).         (* inside create_mission_map *)

Section Main.

(** The libraries the script leans on: [os.path.join], the [/] of
    [pathlib] followed by [str], and the text of a finite double. *)
Variable os_path_join : string -> string -> string.
Variable path_join : string -> string -> string.
Variable float_repr : Qc -> string.


(** One turn of the loop over the cameras. *)
Definition camera_turn (bag : Bag) (output_base : string)
           (pose_df : list PoseSample) (config : CameraConfig)
  : list main_event :=
  let image_dir := path_join output_base (camera_name config ++ "_images") in
  let '(image_df, events) :=
    extract_and_save_images_io os_path_join (bag_cameras bag)
                               (camera_topic config) image_dir
                               (camera_name config) in
  if empty image_df then map OfCamera events
  else
    let matched_df := interpolate_poses_to_images image_df pose_df in
    let csv_path :=
      path_join output_base (camera_name config ++ "_reference.csv") in
    map OfCamera events
    ++ map OfExport (snd (export_metashape_csv float_repr matched_df csv_path)).


End Main.

(** *** Vocabulary for the properties below *)









(** A list of bag timestamps that never goes back in time. *)
Fixpoint time_ordered (l : list Z) : bool :=
  match l with
  | a :: r =>
      match r with
      | b :: _ => (a <=? b)%Z
      | [] => true
      end && time_ordered r
  | [] => true
  end.

Definition multiple_of_20 (count : N) : bool := (count mod 20 =? 0)%N.

Definition is_imwrite (e : image_event) : bool :=
  match e with Imwrite _ _ => true | _ => false end.

Definition is_progress (e : image_event) : bool :=
  match e with PrintExtracted _ => true | _ => false end.


Definition is_csv (e : main_event) : bool :=
  match e with OfExport _ => true | _ => false end.

Definition is_savefig (e : main_event) : bool :=
  match e with Savefig _ => true | _ => false end.

Definition is_image_file (e : main_event) : bool :=
  match e with OfCamera (Imwrite _ _) => true | _ => false end.

End Script.

(* ===================================================================== *)
(** ** More fixtures *)
(* ===================================================================== *)

Module FixtureMore.

Import Extract Fixture Script.
Local Open Scope string_scope.



(** A bag with two frames on the down camera's topic, one frame on another
    topic, and two pose messages. *)
Definition small_reader : Reader :=
  mk_Reader
    ["/science/image_raw"; "/other"; "/pose"]
    [ ("/science/image_raw", 5%Z, mk_ImageMessage 1 2);
      ("/other", 6%Z, mk_ImageMessage 1 3);
      ("/science/image_raw", 7%Z, mk_ImageMessage 1 4) ].

Definition small_pose_reader : PoseReader :=
  mk_PoseReader
    ["/science/image_raw"; "/other"; "/pose"]
    [ ("/pose", 0%Z, mk_PoseMessage 0 0 0 (of_int 2) 0 0 0);
      ("/pose", 10%Z, mk_PoseMessage (of_int 10) 0 0 (of_int 4) 0 0 0) ].

Definition small_bag : Bag := mk_Bag small_pose_reader small_reader.

(** Stand-ins for the library functions the script is given. *)
Definition slash_join (a b : string) : string := a ++ "/" ++ b.

Definition constant_repr (q : Qc) : string := "0.0".

End FixtureMore.

(* ===================================================================== *)
(** ** Facts about the number model *)
(* ===================================================================== *)

Module FloatFacts.


(** The conversion of integers is an order embedding. *)
Lemma of_int_compare (a b : Z) : (of_int a ?= of_int b)%Qc = (a ?= b)%Z.
Proof.
  unfold Qccompare, of_int, Q2Qc. cbn [this]. rewrite <- Qred_compare.
  unfold Qcompare, inject_Z. cbn [Qnum Qden]. rewrite !Z.mul_1_r. reflexivity.
Qed.



Lemma is_neg_of_int (z : Z) : is_neg (of_int z) = (z <? 0)%Z.
Proof.
  unfold is_neg. change 0%Qc with (of_int 0). rewrite of_int_compare.
  unfold Z.ltb. destruct z; reflexivity.
Qed.

Lemma is_zero_true (q : Qc) : is_zero q = true -> q = 0%Qc.
Proof.
  unfold is_zero. destruct (q ?= 0)%Qc eqn:E; try discriminate.
  intros _. apply Qceq_alt. exact E.
Qed.



(** Subtraction of finite values stays finite. *)
Lemma fsub_Fin (p q : Qc) : fsub (Fin p) (Fin q) = Fin (p - q)%Qc.
Proof. reflexivity. Qed.

End FloatFacts.

(* ===================================================================== *)
(** ** Facts about the interpolator *)
(* ===================================================================== *)

Module InterpFacts.

Import Interp1d Extract Spec FloatFacts.


Lemma map_fst_combine {A B C : Type} (f : A -> B) (g : A -> C) (l : list A) :
  map fst (combine (map f l) (map g l)) = map f l.
Proof. induction l; simpl; congruence. Qed.

Lemma map_snd_combine {A B C : Type} (f : A -> B) (g : A -> C) (l : list A) :
  map snd (combine (map f l) (map g l)) = map g l.
Proof. induction l; simpl; congruence. Qed.

Section Channel.

Variable chan : PoseSample -> Qc.

(** Sorting a table that is in timestamp order changes nothing. *)
Lemma argsort_take_sorted (pose_df : list PoseSample) :
  sorted_by_timestamp pose_df = true ->
  argsort_take (combine (ts_col pose_df) (map chan pose_df))
  = combine (ts_col pose_df) (map chan pose_df).
Proof.
  induction pose_df as [|a r IH]; [reflexivity|].
  intros H. cbn [sorted_by_timestamp] in H.
  apply andb_true_iff in H. destruct H as [Hab Hr].
  cbn [ts_col map combine argsort_take fold_right].
  fold (ts_col r). fold (argsort_take (combine (ts_col r) (map chan r))).
  rewrite (IH Hr).
  destruct r as [|b r']; [reflexivity|].
  cbn [ts_col map combine insert_sample fst].
  rewrite of_int_compare.
  apply Z.leb_le in Hab.
  destruct (Z.compare_spec (pose_timestamp_ns b) (pose_timestamp_ns a));
    try reflexivity.
  lia.
Qed.

Lemma init_sorted (pose_df : list PoseSample) :
  sorted_by_timestamp pose_df = true ->
  init (ts_col pose_df) (map chan pose_df)
  = {| self_x := ts_col pose_df; self_y := map chan pose_df |}.
Proof.
  intros H. unfold init. rewrite (argsort_take_sorted _ H).
  unfold ts_col. rewrite map_fst_combine, map_snd_combine. reflexivity.
Qed.

End Channel.








End InterpFacts.

(* ===================================================================== *)
(** ** The line through two samples *)
(* ===================================================================== *)

Module SegmentFacts.

Import Interp1d Extract Spec FloatFacts InterpFacts.

Lemma call_linear_segment (self : interp1d) (x_new : Qc) :
  call_linear self x_new
  = let i := clip (searchsorted (self_x self) x_new) 1
                  (Z.of_nat (List.length (self_x self)) - 1) in
    segment_value (getitem (self_x self) (i - 1)) (getitem (self_y self) (i - 1))
                  (getitem (self_x self) i) (getitem (self_y self) i) x_new.
Proof. reflexivity. Qed.





(** A segment of zero length and zero rise has no slope. *)
Lemma segment_single (x y x_new : Qc) :
  segment_value x y x y x_new = NaN.
Proof.
  unfold segment_value. rewrite !fsub_Fin.
  replace (y - y)%Qc with 0%Qc by ring.
  replace (x - x)%Qc with 0%Qc by ring.
  reflexivity.
Qed.

Section Edges.

Variable chan : PoseSample -> Qc.



End Edges.

End SegmentFacts.

(* ===================================================================== *)
(** ** One channel of a sorted table *)
(* ===================================================================== *)

Module ChannelFacts.

Import Interp1d Extract Spec FloatFacts InterpFacts SegmentFacts.


Section Channel.

Variable chan : PoseSample -> Qc.


(** A table of one sample: the clipped index is 0, both ends of the
    segment are that sample, and the slope is 0/0. *)
Lemma channel_single (s : PoseSample) (t : Z) :
  channel_value [s] t chan = NaN.
Proof.
  unfold channel_value.
  rewrite (init_sorted chan [s] eq_refl), call_linear_segment.
  cbn [self_x self_y ts_col map List.length].
  replace (clip _ 1 (Z.of_nat 1 - 1)) with 0%Z by (unfold clip; lia).
  cbv zeta. unfold getitem. simpl. apply segment_single.
Qed.




End Channel.

End ChannelFacts.

(* ===================================================================== *)
(** ** Conversion to degrees and interpolation *)
(* ===================================================================== *)

Module DegreesFacts.

Import Interp1d Extract Spec FloatFacts InterpFacts SegmentFacts.












Lemma init_lengths (xs ys : list Qc) :
  List.length (self_x (init xs ys)) = List.length (self_y (init xs ys)).
Proof. unfold init. cbn [self_x self_y]. rewrite !length_map. reflexivity. Qed.


End DegreesFacts.

(* ===================================================================== *)
(** ** interpolate_poses_to_images *)
(* ===================================================================== *)

Module Interpolation.

Import Interp1d Extract Spec Fixture FloatFacts InterpFacts SegmentFacts.
Import ChannelFacts DegreesFacts.

(** The loop body, record by record: each image gets one record, which
    carries its filename and the six channels interpolated at its bag
    timestamp. *)
Lemma interpolate_records (image_df : list ImageRecord) (pose_df : list PoseSample) :
  pose_df <> [] ->
  Forall2
    (fun img r =>
       m_filename r = img_filename img /\
       channels_are r (channel_value pose_df (img_bag_timestamp_ns img)))
    image_df (interpolate_poses_to_images image_df pose_df).
Proof.
  intros Hp. destruct pose_df as [|p pose_df]; [congruence|].
  destruct image_df as [|i image_df]; [constructor|].
  unfold interpolate_poses_to_images. cbn [empty orb]. cbv zeta.
  generalize (i :: image_df) as l. clear i image_df.
  induction l as [|img l IH]; cbn [map]; constructor; [|exact IH].
  cbn [m_filename]. split; [reflexivity|].
  unfold channels_are, channel_value, ts_col.
  cbn [m_longitude m_latitude m_altitude m_yaw m_pitch m_roll].
  repeat split; reflexivity.
Qed.

Lemma channels_are_ext (r : MatchedRecord) (f g : (PoseSample -> Qc) -> fnum) :
  (forall chan, f chan = g chan) -> channels_are r f -> channels_are r g.
Proof.
  intros E. unfold channels_are. rewrite !E. exact (fun H => H).
Qed.


(** The filenames pass through in order. *)
Lemma interpolate_filenames (image_df : list ImageRecord) (pose_df : list PoseSample) :
  pose_df <> [] ->
  map m_filename (interpolate_poses_to_images image_df pose_df)
  = map img_filename image_df.
Proof.
  intros Hp. pose proof (interpolate_records image_df Hp) as H.
  induction H as [|img r l l' [Hn _] _ IH]; [reflexivity|].
  cbn [map]. rewrite Hn, IH. reflexivity.
Qed.

(** C1, as the code has it.  For a pose table of exactly one sample every
    record carries NaN in all six channels, whatever the query timestamp:
    the degenerate segment has the slope 0/0, which numpy propagates; the
    sample's value is not returned.  Each image still gets its record,
    with its filename. *)
Theorem single_sample_all_nan (image_df : list ImageRecord) (s : PoseSample) :
  Forall2
    (fun img r =>
       m_filename r = img_filename img /\ channels_are r (fun _ => NaN))
    image_df (interpolate_poses_to_images image_df [s]).
Proof.
  eapply Forall2_impl;
    [|apply (@interpolate_records image_df [s]); discriminate].
  intros img r [Hn Hc]. split; [exact Hn|].
  revert Hc. apply channels_are_ext. intros chan. apply channel_single.
Qed.

(** C1, as stated, fails: one sample at time 7 with longitude 3, queried
    at time 7, does not give back longitude 3. *)
Lemma single_sample_value_lost :
  ~ Forall2
      (fun _ r => channels_are r (fun chan => Fin (chan (sample_at 7 3 4))))
      [image_at 7]
      (interpolate_poses_to_images [image_at 7] [sample_at 7 3 4]).
Proof.
  intros H. inversion H as [|? ? ? ? Hr _]; subst.
  destruct Hr as [Hlon _]. vm_compute in Hlon. discriminate Hlon.
Qed.


(** C3.  With an empty image set, or an empty pose table, the function
    returns the empty result: no interpolator is built and nothing is
    raised. *)
Theorem empty_input_empty_result :
  (forall pose_df, interpolate_poses_to_images [] pose_df = []) /\
  (forall image_df, interpolate_poses_to_images image_df [] = []).
Proof.
  split.
  - intros pose_df. reflexivity.
  - intros image_df. unfold interpolate_poses_to_images.
    rewrite orb_true_r. reflexivity.
Qed.

(** C4.  For non-empty inputs there is exactly one matched record per
    image record, in the order of the image records: the i-th record
    carries the i-th image's filename and the channels interpolated at
    the i-th image's bag timestamp. *)
Theorem one_record_per_image_in_order
        (image_df : list ImageRecord) (pose_df : list PoseSample) :
  image_df <> [] -> pose_df <> [] ->
  List.length (interpolate_poses_to_images image_df pose_df)
  = List.length image_df /\
  map m_filename (interpolate_poses_to_images image_df pose_df)
  = map img_filename image_df /\
  Forall2
    (fun img r =>
       m_filename r = img_filename img /\
       channels_are r (channel_value pose_df (img_bag_timestamp_ns img)))
    image_df (interpolate_poses_to_images image_df pose_df).
Proof.
  intros _ Hp. pose proof (interpolate_records image_df Hp) as H.
  split; [|split; [|exact H]].
  - symmetry. eapply Forall2_length. exact H.
  - apply interpolate_filenames. exact Hp.
Qed.



End Interpolation.

(* ===================================================================== *)
(** ** export_metashape_csv *)
(* ===================================================================== *)

Module CsvExport.

Import Interp1d Text Extract Spec Interpolation.

Section WithRepr.

Variable float_repr : Qc -> string.

Lemma header_line :
  csv_line export_columns
  = "label,longitude,latitude,altitude,yaw,pitch,roll"%string.
Proof. reflexivity. Qed.

(** C7.  Given the empty set the function returns at once and writes
    nothing; given any record it performs one write, to the output
    path: a write is attempted exactly when the set is not empty, and
    the empty case is an ordinary return. *)
Theorem export_writes_iff_nonempty (output_path : string) :
  export_metashape_csv float_repr [] output_path = ([], []) /\
  (forall r rest,
      snd (export_metashape_csv float_repr (r :: rest) output_path)
      = [ToCsv output_path (to_csv (map (export_row float_repr) (r :: rest)))]) /\
  (forall matched_df,
      snd (export_metashape_csv float_repr matched_df output_path) <> []
      <-> matched_df <> []).
Proof.
  split; [reflexivity|]. split; [reflexivity|].
  intros [|r rest]; cbn; split; intros H; congruence.
Qed.

(** C8.  For a non-empty set the file written holds the header line
    [label,longitude,latitude,altitude,yaw,pitch,roll] and then one
    line per record, the i-th line being the i-th record's row, whose
    label is that record's filename; when the records come from
    [interpolate_poses_to_images] the labels are the filenames of the
    image records, in their order. *)
Theorem export_table_layout
        (matched_df : list MatchedRecord) (output_path : string) :
  matched_df <> [] ->
  let rows := map (export_row float_repr) matched_df in
  export_metashape_csv float_repr matched_df output_path
  = (rows,
     [ToCsv output_path
            ("label,longitude,latitude,altitude,yaw,pitch,roll"%string
             :: map csv_line rows)]) /\
  List.length rows = List.length matched_df /\
  map (hd EmptyString) rows = map m_filename matched_df /\
  (forall image_df pose_df,
      pose_df <> [] ->
      matched_df = interpolate_poses_to_images image_df pose_df ->
      map (hd EmptyString) rows = map img_filename image_df).
Proof.
  intros Hne. cbv zeta.
  assert (Hlab : map (hd EmptyString) (map (export_row float_repr) matched_df)
                 = map m_filename matched_df).
  { rewrite map_map. apply map_ext. reflexivity. }
  split; [|split; [|split]].
  - destruct matched_df as [|r rest]; [congruence|]. reflexivity.
  - apply length_map.
  - exact Hlab.
  - intros image_df pose_df Hp E. rewrite Hlab, E.
    apply interpolate_filenames. exact Hp.
Qed.

(** One turn of the camera loop: a camera with images and a non-empty
    pose table writes one table whose labels are the image filenames in
    extraction order. *)
Lemma process_camera_labels (reader : Reader) (topic camera_name csv_path : string)
      (pose_df : list PoseSample) :
  pose_df <> [] ->
  extract_and_save_images reader topic camera_name <> [] ->
  let image_df := extract_and_save_images reader topic camera_name in
  let rows :=
    map (export_row float_repr) (interpolate_poses_to_images image_df pose_df) in
  process_camera float_repr reader topic camera_name csv_path pose_df
  = [ToCsv csv_path
           ("label,longitude,latitude,altitude,yaw,pitch,roll"%string
            :: map csv_line rows)] /\
  map (hd EmptyString) rows = map img_filename image_df.
Proof.
  intros Hp Hi. cbv zeta. unfold process_camera.
  destruct (extract_and_save_images reader topic camera_name) as [|i image_df];
    [congruence|].
  cbn [empty]. split.
  - destruct pose_df as [|p pose_df]; [congruence|]. reflexivity.
  - rewrite map_map.
    rewrite <- (interpolate_filenames (i :: image_df) Hp).
    apply map_ext. reflexivity.
Qed.

End WithRepr.

End CsvExport.

(* ===================================================================== *)
(** ** Facts about decimal text *)
(* ===================================================================== *)

Module TextFacts.

Import Text.
Local Open Scope N_scope.

Lemma str_of_int_small (n : N) :
  n < 10 -> str_of_int n = String (digit_char n) EmptyString.
Proof.
  intros H. rewrite str_of_int_equation_1.
  destruct (lt10_dec n) as [Hlt|Hge]; [reflexivity|lia].
Qed.

Lemma str_of_int_big (n : N) :
  10 <= n ->
  str_of_int n
  = (str_of_int (n / 10) ++ String (digit_char (n mod 10)) EmptyString)%string.
Proof.
  intros H. rewrite str_of_int_equation_1.
  destruct (lt10_dec n) as [Hlt|Hge]; [lia|reflexivity].
Qed.

Lemma length_append (s1 s2 : string) :
  String.length (s1 ++ s2) = (String.length s1 + String.length s2)%nat.
Proof. induction s1; simpl; congruence. Qed.


(** [str(n)] has at least one digit, at most [k] digits below [10^k]
    and more than [k] digits from [10^k] on. *)
Lemma str_of_int_length_pos (n : N) : (0 < String.length (str_of_int n))%nat.
Proof.
  destruct (N.lt_ge_cases n 10) as [H|H].
  - rewrite (str_of_int_small H). simpl. lia.
  - rewrite (str_of_int_big H), length_append. simpl. lia.
Qed.





(** Reading the digits back. *)
Lemma digit_value_digit_char (d : N) :
  d < 10 -> digit_value (digit_char d) = Some d.
Proof.
  intros H.
  assert (C : d = 0 \/ d = 1 \/ d = 2 \/ d = 3 \/ d = 4 \/ d = 5 \/ d = 6
              \/ d = 7 \/ d = 8 \/ d = 9) by lia.
  repeat (destruct C as [->|C]; [reflexivity|]). subst d. reflexivity.
Qed.

Lemma int_of_str_acc_app (acc : N) (s1 s2 : string) :
  int_of_str_acc acc (s1 ++ s2)
  = match int_of_str_acc acc s1 with
    | Some a => int_of_str_acc a s2
    | None => None
    end.
Proof.
  revert acc. induction s1 as [|c s1 IH]; intros acc; [reflexivity|].
  simpl. destruct (digit_value c); [apply IH|reflexivity].
Qed.

Lemma int_of_str_acc_str (n : N) : int_of_str_acc 0 (str_of_int n) = Some n.
Proof.
  induction n as [n IH] using (well_founded_induction N.lt_wf_0).
  destruct (N.lt_ge_cases n 10) as [Hs|Hb].
  - rewrite (str_of_int_small Hs). cbn [int_of_str_acc].
    rewrite (digit_value_digit_char Hs). reflexivity.
  - rewrite (str_of_int_big Hb), int_of_str_acc_app, IH
      by (apply N.div_lt; lia).
    cbn [int_of_str_acc]. rewrite digit_value_digit_char
      by (apply N.mod_lt; lia).
    f_equal. pose proof (N.div_mod n 10). lia.
Qed.

Lemma int_of_str_acc_zeros (k : nat) (s : string) :
  int_of_str_acc 0 (zeros k ++ s) = int_of_str_acc 0 s.
Proof. induction k as [|k IH]; [reflexivity|exact IH]. Qed.

Lemma int_of_str_acc_format (n : N) : int_of_str_acc 0 (format_04d n) = Some n.
Proof.
  unfold format_04d. rewrite int_of_str_acc_zeros. apply int_of_str_acc_str.
Qed.

(** The formatted index reads back as the index. *)
Lemma int_of_str_format_04d (n : N) : int_of_str (format_04d n) = Some n.
Proof.
  unfold int_of_str. destruct (format_04d n) eqn:E.
  - pose proof (str_of_int_length_pos n) as Hp.
    apply (f_equal String.length) in E. unfold format_04d in E.
    rewrite length_append in E. simpl in E. lia.
  - rewrite <- E. apply int_of_str_acc_format.
Qed.

End TextFacts.

(* ===================================================================== *)
(** ** Lexicographic order of the numbered filenames *)
(* ===================================================================== *)

Module OrderFacts.

Import Text TextFacts.
Local Open Scope N_scope.









End OrderFacts.

(* ===================================================================== *)
(** ** extract_and_save_images *)
(* ===================================================================== *)

Module Extraction.

Import Text Extract TextFacts OrderFacts.

Lemma enumerate_images_numbering (prefix : string)
      (msgs : list (string * Z * ImageMessage)) :
  forall k : nat,
    Forall2
      (fun i rec =>
         img_index rec = N.of_nat i /\
         img_filename rec
         = (prefix ++ "_" ++ format_04d (N.of_nat i) ++ ".jpg")%string)
      (seq k (List.length msgs))
      (enumerate_images prefix (N.of_nat k) msgs).
Proof.
  induction msgs as [|[[tp ts] msg] rest IH]; intros k; [constructor|].
  cbn [List.length seq enumerate_images]. constructor.
  - split; reflexivity.
  - rewrite <- Nat2N.inj_succ. apply IH.
Qed.

Lemma enumerate_images_length (prefix : string) (idx : N)
      (msgs : list (string * Z * ImageMessage)) :
  List.length (enumerate_images prefix idx msgs) = List.length msgs.
Proof.
  revert idx. induction msgs as [|[[tp ts] msg] rest IH]; intros idx;
    [reflexivity|].
  cbn [List.length enumerate_images]. rewrite IH. reflexivity.
Qed.


(** The records of a camera, with their positions. *)
Lemma extract_numbering (reader : Reader) (topic prefix : string) :
  let image_df := extract_and_save_images reader topic prefix in
  Forall2
    (fun i rec =>
       img_index rec = N.of_nat i /\
       img_filename rec
       = (prefix ++ "_" ++ format_04d (N.of_nat i) ++ ".jpg")%string)
    (seq 0 (List.length image_df)) image_df.
Proof.
  cbv zeta. unfold extract_and_save_images.
  destruct (negb (has_topic reader topic)); [constructor|].
  rewrite enumerate_images_length.
  apply (enumerate_images_numbering prefix (messages_of reader topic) 0).
Qed.


End Extraction.

(* ===================================================================== *)
(** ** Mission statistics: the spans *)
(* ===================================================================== *)

Module StatsFacts.

Import Extract Stats.
Local Open Scope R_scope.

Lemma fold_max_greatest (r : list R) :
  forall a, greatest (a :: r) (fold_left Rmax r a).
Proof.
  induction r as [|b r IH]; intros a.
  - cbn [fold_left]. split; [left; reflexivity|]. intros v [<-|[]]. lra.
  - cbn [fold_left]. destruct (IH (Rmax a b)) as [Hin Hub]. split.
    + destruct Hin as [E|Hin].
      * rewrite <- E. unfold Rmax. destruct (Rle_dec a b);
          [right; left|left]; reflexivity.
      * right. right. exact Hin.
    + assert (Hm : Rmax a b <= fold_left Rmax r (Rmax a b))
        by (apply Hub; left; reflexivity).
      intros v [E|[E|Hv]].
      * subst v. pose proof (Rmax_l a b). lra.
      * subst v. pose proof (Rmax_r a b). lra.
      * apply Hub. right. exact Hv.
Qed.

Lemma fold_min_least (r : list R) :
  forall a, least (a :: r) (fold_left Rmin r a).
Proof.
  induction r as [|b r IH]; intros a.
  - cbn [fold_left]. split; [left; reflexivity|]. intros v [<-|[]]. lra.
  - cbn [fold_left]. destruct (IH (Rmin a b)) as [Hin Hlb]. split.
    + destruct Hin as [E|Hin].
      * rewrite <- E. unfold Rmin. destruct (Rle_dec a b);
          [left|right; left]; reflexivity.
      * right. right. exact Hin.
    + assert (Hm : fold_left Rmin r (Rmin a b) <= Rmin a b)
        by (apply Hlb; left; reflexivity).
      intros v [E|[E|Hv]].
      * subst v. pose proof (Rmin_l a b). lra.
      * subst v. pose proof (Rmin_r a b). lra.
      * apply Hlb. right. exact Hv.
Qed.

Lemma series_max_greatest (l : list R) : l <> [] -> greatest l (series_max l).
Proof. destruct l as [|a r]; [congruence|]. intros _. apply fold_max_greatest. Qed.

Lemma series_min_least (l : list R) : l <> [] -> least l (series_min l).
Proof. destruct l as [|a r]; [congruence|]. intros _. apply fold_min_least. Qed.

(** The mean is the number whose product with the count is the sum. *)
Lemma series_mean_unique (l : list R) (m : R) :
  l <> [] -> m * INR (List.length l) = series_sum l -> series_mean l = m.
Proof.
  intros Hne Hm. unfold series_mean. rewrite <- Hm. field.
  apply not_0_INR. destruct l; [congruence|discriminate].
Qed.

Lemma Q2R_of_int (z : Z) : Q2R (this (of_int z)) = IZR z.
Proof.
  unfold of_int, Q2Qc. cbn [this].
  rewrite (Qeq_eqR _ _ (Qred_correct (inject_Z z))).
  unfold Q2R, inject_Z. cbn [Qnum Qden]. field.
Qed.

Lemma column_nonempty (chan : PoseSample -> Qc) (pose_df : list PoseSample) :
  pose_df <> [] -> column chan pose_df <> [].
Proof. destruct pose_df; [congruence|discriminate]. Qed.

(** C9.  For a non-empty pose table the longitude span in metres is
    (greatest longitude - least longitude) x 111000 x cos(mean latitude
    in radians) and the latitude span is (greatest latitude - least
    latitude) x 111000; a longitude range of one degree gives 111000 m
    at mean latitude 0 and 55500 m at mean latitude 60. *)
Theorem span_formulas (pose_df : list PoseSample) :
  pose_df <> [] ->
  let st := location_stats pose_df in
  let lons := column pose_x pose_df in
  let lats := column pose_y pose_df in
  greatest lons (lon_max st) /\ least lons (lon_min st) /\
  greatest lats (lat_max st) /\ least lats (lat_min st) /\
  (forall mean_lat,
      mean_lat * INR (List.length lats) = series_sum lats ->
      lon_span_m st
      = (lon_max st - lon_min st) * 111000 * cos (mean_lat * (PI / 180))) /\
  lat_span_m st = (lat_max st - lat_min st) * 111000 /\
  (lon_max st - lon_min st = 1 ->
   0 * INR (List.length lats) = series_sum lats ->
   lon_span_m st = 111000) /\
  (lon_max st - lon_min st = 1 ->
   60 * INR (List.length lats) = series_sum lats ->
   lon_span_m st = 55500).
Proof.
  intros Hne. cbv zeta.
  pose proof (column_nonempty pose_x Hne) as Hx.
  pose proof (column_nonempty pose_y Hne) as Hy.
  assert (Hspan : forall mean_lat,
             mean_lat * INR (List.length (column pose_y pose_df))
             = series_sum (column pose_y pose_df) ->
             lon_span_m (location_stats pose_df)
             = (lon_max (location_stats pose_df)
                - lon_min (location_stats pose_df))
               * 111000 * cos (mean_lat * (PI / 180))).
  { intros m Hm. cbn [location_stats lon_span_m lon_max lon_min].
    rewrite (series_mean_unique Hy Hm). reflexivity. }
  repeat split.
  - apply (series_max_greatest Hx).
  - apply (series_max_greatest Hx).
  - apply (series_min_least Hx).
  - apply (series_min_least Hx).
  - apply (series_max_greatest Hy).
  - apply (series_max_greatest Hy).
  - apply (series_min_least Hy).
  - apply (series_min_least Hy).
  - exact Hspan.
  - intros Hd Hm. rewrite (Hspan 0 Hm), Hd.
    replace (0 * (PI / 180)) with 0 by lra. rewrite cos_0. lra.
  - intros Hd Hm. rewrite (Hspan 60 Hm), Hd.
    replace (60 * (PI / 180)) with (PI / 3) by lra. rewrite cos_PI3. lra.
Qed.

End StatsFacts.

(* ===================================================================== *)
(** ** The theorems at the fixtures *)
(* ===================================================================== *)

Module Instances.

Import Interp1d Text Extract Stats Spec Fixture.
Import Interpolation CsvExport StatsFacts.


Lemma one_record_per_image_at_5_and_20 :
  [image_at 5; image_at 20] <> [] /\ two_samples <> [] /\
  List.length (interpolate_poses_to_images [image_at 5; image_at 20] two_samples)
  = 2%nat /\
  map m_filename
      (interpolate_poses_to_images [image_at 5; image_at 20] two_samples)
  = ["down_0000.jpg"; "down_0000.jpg"]%string.
Proof.
  assert (Hi : [image_at 5; image_at 20] <> []) by discriminate.
  assert (Hp : two_samples <> []) by discriminate.
  split; [exact Hi|]. split; [exact Hp|].
  destruct (one_record_per_image_in_order Hi Hp) as (Hl & Hn & _).
  split; [exact Hl|exact Hn].
Defined.


Lemma export_table_layout_one_record :
  [nan_record] <> [] /\
  export_metashape_csv (fun _ => "0.0"%string) [nan_record] "down_reference.csv"
  = ([["down_0000.jpg"; ""; ""; ""; ""; ""; ""]%string],
     [ToCsv "down_reference.csv"
            ["label,longitude,latitude,altitude,yaw,pitch,roll";
             "down_0000.jpg,,,,,,"]%string]).
Proof.
  assert (Hne : [nan_record] <> []) by discriminate.
  split; [exact Hne|].
  exact (proj1 (@export_table_layout (fun _ => "0.0"%string) [nan_record]
                                     "down_reference.csv" Hne)).
Defined.

Lemma span_formulas_at_60_degrees :
  [sample_at 0 0 60; sample_at 10 1 60] <> [] /\
  lon_span_m (location_stats [sample_at 0 0 60; sample_at 10 1 60]) = 55500%R.
Proof.
  assert (Hne : [sample_at 0 0 60; sample_at 10 1 60] <> []) by discriminate.
  split; [exact Hne|].
  destruct (span_formulas Hne) as (_ & _ & _ & _ & _ & _ & _ & H).
  apply H.
  - cbn [location_stats lon_max lon_min column map sample_at pose_x
         series_max series_min fold_left].
    rewrite !Q2R_of_int. unfold Rmax, Rmin.
    destruct (Rle_dec 0 1); lra.
  - cbn [column map sample_at pose_y series_sum fold_right List.length].
    rewrite !Q2R_of_int. simpl INR. lra.
Defined.

End Instances.

(* ===================================================================== *)
(** ** More on interpolate_poses_to_images *)
(* ===================================================================== *)

Module InterpolationMore.

Import Interp1d Text Extract Spec Fixture Script.
Import FloatFacts InterpFacts SegmentFacts ChannelFacts DegreesFacts.
Import Interpolation.





Section Channel.

Variable chan : PoseSample -> Qc.



End Channel.






End InterpolationMore.

(* ===================================================================== *)
(** ** The table need not arrive in timestamp order *)
(* ===================================================================== *)

Module SortingFacts.

Import Interp1d Text Extract Spec Script.
Import FloatFacts InterpFacts ChannelFacts Interpolation.

Section Channel.

Variable chan : PoseSample -> Qc.




End Channel.








End SortingFacts.

(* ===================================================================== *)
(** ** More on extract_and_save_images *)
(* ===================================================================== *)

Module ExtractionMore.

Import Text Extract Script TextFacts OrderFacts Extraction.

Lemma append_cancel_l (p a b : string) : (p ++ a = p ++ b)%string -> a = b.
Proof.
  induction p as [|c p IH]; intros H; [exact H|].
  cbn [append] in H. injection H as H. apply IH, H.
Qed.

Lemma append_cancel_r (t : string) :
  forall a b : string, (a ++ t = b ++ t)%string -> a = b.
Proof.
  assert (Hlen : forall a b : string,
             (a ++ t = b ++ t)%string -> String.length a = String.length b).
  { intros a b H. apply (f_equal String.length) in H.
    rewrite !length_append in H. lia. }
  induction a as [|c a IH]; intros [|d b] H.
  - reflexivity.
  - apply Hlen in H. discriminate H.
  - apply Hlen in H. discriminate H.
  - cbn [append] in H. injection H as Hc H. subst d. f_equal. apply IH, H.
Qed.

(** The formatted index determines the index. *)
Lemma format_04d_injective (i j : N) : format_04d i = format_04d j -> i = j.
Proof.
  intros H. pose proof (int_of_str_format_04d i) as Hi.
  rewrite H, int_of_str_format_04d in Hi. congruence.
Qed.

Lemma filename_injective (prefix : string) (i j : nat) :
  (prefix ++ "_" ++ format_04d (N.of_nat i) ++ ".jpg")%string
  = (prefix ++ "_" ++ format_04d (N.of_nat j) ++ ".jpg")%string ->
  i = j.
Proof.
  intros H. apply append_cancel_l in H. apply append_cancel_l in H.
  apply append_cancel_r in H. apply format_04d_injective in H.
  apply Nat2N.inj. exact H.
Qed.

Lemma Forall2_map_eq {A B C : Type} (f : A -> C) (g : B -> C)
      (l : list A) (l' : list B) :
  Forall2 (fun a b => g b = f a) l l' -> map g l' = map f l.
Proof. induction 1 as [|a b l l' H _ IH]; [reflexivity|]. simpl. congruence. Qed.

(** The filenames of a stream, all at once. *)
Lemma extract_filenames (reader : Reader) (topic prefix : string) :
  let image_df := extract_and_save_images reader topic prefix in
  map img_filename image_df
  = map (fun i => (prefix ++ "_" ++ format_04d (N.of_nat i) ++ ".jpg")%string)
        (seq 0 (List.length image_df)).
Proof.
  cbv zeta. apply Forall2_map_eq.
  eapply Forall2_impl; [|apply extract_numbering].
  intros i r [_ H]. exact H.
Qed.

(** X6.  No two images of one extraction share a filename, however many
    there are: no image file is written over by a later one. *)
Theorem filenames_are_distinct (reader : Reader) (topic prefix : string) :
  NoDup (map img_filename (extract_and_save_images reader topic prefix)).
Proof.
  rewrite extract_filenames.
  apply Finite.Injective_map_NoDup; [|apply seq_NoDup].
  intros i j H. apply (filename_injective prefix). exact H.
Qed.

Lemma enumerate_images_stamps (prefix : string)
      (msgs : list (string * Z * ImageMessage)) :
  forall idx,
    Forall2
      (fun m r =>
         img_bag_timestamp_ns r = snd (fst m) /\
         img_timestamp_ns r
         = (header_stamp_sec (snd m) * 1000000000
            + header_stamp_nanosec (snd m))%Z)
      msgs (enumerate_images prefix idx msgs).
Proof.
  induction msgs as [|[[tp ts] msg] rest IH]; intros idx; [constructor|].
  cbn [enumerate_images]. constructor; [|apply IH].
  split; reflexivity.
Qed.

(** X7.  Each record keeps the bag timestamp of its message, in the order
    of the messages of the topic, and its header timestamp loses nothing:
    for a nanosecond field within a second, the seconds and nanoseconds
    of the header stamp are its quotient and remainder by 10^9. *)
Theorem timestamps_are_kept (reader : Reader) (topic prefix : string) :
  has_topic reader topic = true ->
  Forall2
    (fun m r =>
       img_bag_timestamp_ns r = snd (fst m) /\
       ((0 <= header_stamp_nanosec (snd m) < 1000000000)%Z ->
        (img_timestamp_ns r / 1000000000)%Z = header_stamp_sec (snd m) /\
        (img_timestamp_ns r mod 1000000000)%Z = header_stamp_nanosec (snd m)))
    (messages_of reader topic)
    (extract_and_save_images reader topic prefix).
Proof.
  intros Ht. unfold extract_and_save_images. rewrite Ht. cbn [negb].
  eapply Forall2_impl; [|apply enumerate_images_stamps].
  intros m r [Hb Hh]. split; [exact Hb|]. intros Hn. rewrite Hh. split.
  - symmetry. apply Z.div_unique with (r := header_stamp_nanosec (snd m)); lia.
  - symmetry. apply Z.mod_unique with (q := header_stamp_sec (snd m)); lia.
Qed.

Section OsPath.

Variable os_path_join : string -> string -> string.

Lemma image_loop_records (output_dir prefix : string)
      (msgs : list (string * Z * ImageMessage)) :
  forall idx,
    fst (image_loop os_path_join output_dir prefix idx msgs)
    = enumerate_images prefix idx msgs.
Proof.
  induction msgs as [|[[tp ts] msg] rest IH]; intros idx; [reflexivity|].
  cbn [image_loop enumerate_images]. specialize (IH (N.succ idx)).
  destruct (image_loop os_path_join output_dir prefix (N.succ idx) rest)
    as [images events].
  cbn [fst] in *. rewrite IH. reflexivity.
Qed.

Lemma image_loop_files (output_dir prefix : string)
      (msgs : list (string * Z * ImageMessage)) :
  forall idx,
    filter is_imwrite (snd (image_loop os_path_join output_dir prefix idx msgs))
    = map (fun r => Imwrite (os_path_join output_dir (img_filename r)) 95)
          (enumerate_images prefix idx msgs).
Proof.
  induction msgs as [|[[tp ts] msg] rest IH]; intros idx; [reflexivity|].
  cbn [image_loop enumerate_images]. specialize (IH (N.succ idx)).
  destruct (image_loop os_path_join output_dir prefix (N.succ idx) rest)
    as [images events].
  cbn [snd filter is_imwrite map] in *. f_equal.
  rewrite filter_app, IH.
  destruct ((idx + 1) mod 20 =? 0)%N; reflexivity.
Qed.

(** The frame of the fuller model is the frame of the plain one. *)
Lemma extract_io_frame (reader : Reader) (topic output_dir prefix : string) :
  fst (extract_and_save_images_io os_path_join reader topic output_dir prefix)
  = extract_and_save_images reader topic prefix.
Proof.
  unfold extract_and_save_images_io, extract_and_save_images.
  destruct (negb (has_topic reader topic)); [reflexivity|].
  pose proof (image_loop_records output_dir prefix (messages_of reader topic) 0)
    as H.
  destruct (image_loop os_path_join output_dir prefix 0 (messages_of reader topic)).
  exact H.
Qed.

(** X8.  The image directory is made first, whether or not the topic is
    in the bag, and then exactly one jpeg is written per record, in the
    order of the records, each under the output directory with its
    record's filename and quality 95. *)
Theorem one_file_per_record (reader : Reader) (topic output_dir prefix : string) :
  let result :=
    extract_and_save_images_io os_path_join reader topic output_dir prefix in
  hd_error (snd result) = Some (Makedirs output_dir) /\
  fst result = extract_and_save_images reader topic prefix /\
  filter is_imwrite (snd result)
  = map (fun r => Imwrite (os_path_join output_dir (img_filename r)) 95)
        (fst result).
Proof.
  cbv zeta. split; [|split; [apply extract_io_frame|]].
  - unfold extract_and_save_images_io.
    destruct (negb (has_topic reader topic)); [reflexivity|].
    destruct (image_loop os_path_join output_dir prefix 0
                         (messages_of reader topic)). reflexivity.
  - unfold extract_and_save_images_io.
    destruct (negb (has_topic reader topic)); [reflexivity|].
    pose proof (image_loop_files output_dir prefix (messages_of reader topic) 0)
      as Hf.
    pose proof (image_loop_records output_dir prefix (messages_of reader topic) 0)
      as Hr.
    destruct (image_loop os_path_join output_dir prefix 0
                         (messages_of reader topic)) as [images events].
    cbn [fst snd filter is_imwrite] in *. rewrite Hf, Hr. reflexivity.
Qed.

Lemma image_loop_progress (output_dir prefix : string)
      (msgs : list (string * Z * ImageMessage)) :
  forall k : nat,
    filter is_progress
           (snd (image_loop os_path_join output_dir prefix (N.of_nat k) msgs))
    = map PrintExtracted
          (filter multiple_of_20
                  (map (fun i => N.of_nat (S i)) (seq k (List.length msgs)))).
Proof.
  induction msgs as [|[[tp ts] msg] rest IH]; intros k; [reflexivity|].
  cbn [image_loop List.length seq map filter].
  specialize (IH (S k)). rewrite Nat2N.inj_succ in IH.
  destruct (image_loop os_path_join output_dir prefix
                       (N.succ (N.of_nat k)) rest) as [images events].
  cbn [snd filter is_progress] in *. rewrite filter_app, IH.
  replace (N.of_nat (S k)) with (N.of_nat k + 1)%N
    by (rewrite Nat2N.inj_succ; lia).
  unfold multiple_of_20.
  destruct ((N.of_nat k + 1) mod 20 =? 0)%N; reflexivity.
Qed.

(** X9.  The progress line is printed after every twentieth image and at
    no other time: the counts printed are the multiples of 20 among
    1, ..., n, in increasing order, n being the number of records. *)
Theorem progress_every_twentieth
        (reader : Reader) (topic output_dir prefix : string) :
  let result :=
    extract_and_save_images_io os_path_join reader topic output_dir prefix in
  filter is_progress (snd result)
  = map PrintExtracted
        (filter multiple_of_20
                (map (fun i => N.of_nat (S i))
                     (seq 0 (List.length (fst result))))).
Proof.
  cbv zeta. unfold extract_and_save_images_io.
  destruct (negb (has_topic reader topic)); [reflexivity|].
  pose proof (image_loop_progress output_dir prefix (messages_of reader topic) 0)
    as Hp.
  pose proof (image_loop_records output_dir prefix (messages_of reader topic) 0)
    as Hr.
  change (N.of_nat 0) with 0%N in Hp.
  destruct (image_loop os_path_join output_dir prefix 0
                       (messages_of reader topic)) as [images events].
  cbn [fst snd filter is_progress] in *.
  rewrite Hp, Hr, enumerate_images_length. reflexivity.
Qed.

End OsPath.

End ExtractionMore.

(* ===================================================================== *)
(** ** extract_poses *)
(* ===================================================================== *)

Module PosesFacts.

Import Text Extract Spec Script.

Lemma time_ordered_tail (a : Z) (l : list Z) :
  time_ordered (a :: l) = true -> time_ordered l = true.
Proof. cbn [time_ordered]. intros H. apply andb_true_iff in H. apply H. Qed.

Lemma time_ordered_lower (l : list Z) :
  forall a, time_ordered (a :: l) = true -> Forall (Z.le a) l.
Proof.
  induction l as [|b l IH]; intros a H; [constructor|].
  pose proof (time_ordered_tail _ _ H) as Ht.
  cbn [time_ordered] in H. apply andb_true_iff in H. destruct H as [Hab _].
  apply Z.leb_le in Hab. constructor; [exact Hab|].
  eapply Forall_impl; [|apply (IH b Ht)]. intros c Hc. cbv beta in Hc. lia.
Qed.

Section Filtered.

Variable keep : string * Z * PoseMessage -> bool.

Lemma filtered_samples_sorted (msgs : list (string * Z * PoseMessage)) :
  time_ordered (map (fun m => snd (fst m)) msgs) = true ->
  sorted_by_timestamp (map message_sample (filter keep msgs)) = true.
Proof.
  induction msgs as [|m msgs IH]; intros H; [reflexivity|].
  cbn [map] in H. pose proof (time_ordered_lower _ _ H) as Hlow.
  specialize (IH (time_ordered_tail _ _ H)).
  cbn [filter]. destruct (keep m); [|exact IH].
  cbn [map sorted_by_timestamp]. rewrite IH, andb_true_r.
  destruct (filter keep msgs) as [|b l] eqn:E; [reflexivity|].
  cbn [map]. apply Z.leb_le.
  assert (Hin : In b msgs).
  { apply (proj1 (filter_In keep b msgs)). rewrite E. left. reflexivity. }
  rewrite Forall_forall in Hlow.
  apply (Hlow (snd (fst b))). apply in_map_iff. exists b. split; [reflexivity|exact Hin].
Qed.

Lemma filtered_samples_nodup (msgs : list (string * Z * PoseMessage)) :
  NoDup (map (fun m => snd (fst m)) msgs) ->
  NoDup (map pose_timestamp_ns (map message_sample (filter keep msgs))).
Proof.
  induction msgs as [|m msgs IH]; intros H; [constructor|].
  cbn [map] in H. inversion H as [|? ? Hnotin Hrest]; subst.
  specialize (IH Hrest). cbn [filter]. destruct (keep m); [|exact IH].
  cbn [map]. constructor; [|exact IH].
  intros Hin. apply Hnotin. rewrite map_map in Hin.
  apply in_map_iff in Hin. destruct Hin as (b & Hb & Hin).
  apply in_map_iff. exists b. split; [exact Hb|].
  apply (proj1 (filter_In keep b msgs)) in Hin. apply Hin.
Qed.

End Filtered.

(** X10.  When the bag yields its pose messages in time order, the pose
    table is in timestamp order, so the interpolator's sort leaves it as
    it is; distinct bag timestamps give distinct table timestamps; and
    the table never has more samples than the bag has pose messages. *)
Theorem poses_keep_bag_order (reader : PoseReader) :
  time_ordered (map (fun m => snd (fst m)) (pose_messages reader)) = true ->
  sorted_by_timestamp (extract_poses reader) = true /\
  (NoDup (map (fun m => snd (fst m)) (pose_messages reader)) ->
   NoDup (map pose_timestamp_ns (extract_poses reader))) /\
  (List.length (extract_poses reader) <= List.length (pose_messages reader))%nat.
Proof.
  intros H. unfold extract_poses.
  destruct (negb (existsb (fun t => String.eqb t POSE_TOPIC)
                          (pose_connections reader))).
  - split; [reflexivity|]. split; [intros _; constructor|]. simpl. lia.
  - split; [|split].
    + apply (filtered_samples_sorted _ _ H).
    + apply filtered_samples_nodup.
    + rewrite length_map. apply filter_length_le.
Qed.

End PosesFacts.

(* ===================================================================== *)
(** ** More on the mission statistics *)
(* ===================================================================== *)

Module StatsMore.

Import Extract Stats Script FloatFacts DegreesFacts StatsFacts.









Local Open Scope R_scope.

Lemma sum_between (l : list R) (lo hi : R) :
  (forall v, In v l -> lo <= v <= hi) ->
  INR (List.length l) * lo <= series_sum l <= INR (List.length l) * hi.
Proof.
  induction l as [|a l IH]; intros H.
  - simpl. lra.
  - assert (Ha : lo <= a <= hi) by (apply H; left; reflexivity).
    assert (Hl : forall v, In v l -> lo <= v <= hi)
      by (intros v Hv; apply H; right; exact Hv).
    specialize (IH Hl). unfold series_sum in *. cbn [fold_right].
    change (List.length (a :: l)) with (S (List.length l)).
    rewrite S_INR. nra.
Qed.

(** The mean of a non-empty column lies between any bounds of its
    entries. *)
Lemma mean_between (l : list R) (lo hi : R) :
  l <> [] -> (forall v, In v l -> lo <= v <= hi) ->
  lo <= series_mean l <= hi.
Proof.
  intros Hne H. pose proof (sum_between l H) as Hs.
  assert (Hn : 0 < INR (List.length l)).
  { apply lt_0_INR. destruct l; [congruence|simpl; lia]. }
  unfold series_mean. split.
  - apply Rmult_le_reg_r with (r := INR (List.length l)); [exact Hn|].
    unfold Rdiv. rewrite Rmult_assoc, Rinv_l by lra. lra.
  - apply Rmult_le_reg_r with (r := INR (List.length l)); [exact Hn|].
    unfold Rdiv. rewrite Rmult_assoc, Rinv_l by lra. lra.
Qed.

Lemma min_le_max (l : list R) : l <> [] -> series_min l <= series_max l.
Proof.
  intros Hne. destruct (series_max_greatest Hne) as [Hin _].
  destruct (series_min_least Hne) as [_ Hlb]. apply Hlb, Hin.
Qed.


(** X13.  The spans of a non-empty table: the latitude span is never
    negative; the longitude span is at most the longitude difference
    times 111000 in absolute value, and when every latitude lies between
    -90 and 90 degrees it is not negative either; a table of one sample
    has both spans equal to zero. *)
Theorem spans_are_bounded (pose_df : list PoseSample) :
  pose_df <> [] ->
  let st := location_stats pose_df in
  lon_min st <= lon_max st /\ lat_min st <= lat_max st /\
  0 <= lat_span_m st /\
  Rabs (lon_span_m st) <= (lon_max st - lon_min st) * 111000 /\
  ((forall p, In p pose_df -> -90 <= Q2R (this (pose_y p)) <= 90) ->
   0 <= lon_span_m st) /\
  (forall s, pose_df = [s] -> lon_span_m st = 0 /\ lat_span_m st = 0).
Proof.
  intros Hne. cbv zeta.
  pose proof (min_le_max (column_nonempty pose_x Hne)) as Hx.
  pose proof (min_le_max (column_nonempty pose_y Hne)) as Hy.
  cbn [location_stats lon_min lon_max lat_min lat_max lon_span_m lat_span_m].
  split; [exact Hx|]. split; [exact Hy|]. split; [nra|].
  split; [|split].
  - rewrite Rabs_mult.
    pose proof (COS_bound (radians (series_mean (column pose_y pose_df)))) as [Hc1 Hc2].
    assert (Hc : Rabs (cos (radians (series_mean (column pose_y pose_df)))) <= 1)
      by (apply Rabs_le; lra).
    rewrite (Rabs_pos_eq ((series_max (column pose_x pose_df)
                           - series_min (column pose_x pose_df)) * 111000))
      by nra.
    assert (Hd : 0 <= (series_max (column pose_x pose_df)
                       - series_min (column pose_x pose_df)) * 111000) by nra.
    nra.
  - intros Hlat.
    assert (Hm : -90 <= series_mean (column pose_y pose_df) <= 90).
    { apply mean_between; [apply column_nonempty; exact Hne|].
      intros v Hv. unfold column in Hv. apply in_map_iff in Hv.
      destruct Hv as (p & <- & Hp). apply Hlat, Hp. }
    assert (Hcos : 0 <= cos (radians (series_mean (column pose_y pose_df)))).
    { pose proof PI_RGT_0 as Hpi. unfold radians.
      apply cos_ge_0; nra. }
    assert (Hd : 0 <= (series_max (column pose_x pose_df)
                       - series_min (column pose_x pose_df)) * 111000) by nra.
    apply Rmult_le_pos; assumption.
  - intros s ->. cbn [column map series_max series_min fold_left]. split; ring.
Qed.

End StatsMore.

(* ===================================================================== *)
(** ** More on the exported table *)
(* ===================================================================== *)

Module CsvMore.

Import Interp1d Text Extract Spec Script.
Import TextFacts ChannelFacts Interpolation Extraction ExtractionMore.

Local Open Scope N_scope.

Lemma needs_quote_app (a b : string) :
  needs_quote (a ++ b) = needs_quote a || needs_quote b.
Proof.
  induction a as [|c a IH]; [reflexivity|].
  cbn [append needs_quote]. rewrite IH, !orb_assoc. reflexivity.
Qed.

Lemma needs_quote_zeros (k : nat) : needs_quote (zeros k) = false.
Proof. induction k as [|k IH]; [reflexivity|exact IH]. Qed.

Lemma needs_quote_digit (d : N) :
  d < 10 -> needs_quote (String (digit_char d) EmptyString) = false.
Proof.
  intros H.
  assert (C : d = 0 \/ d = 1 \/ d = 2 \/ d = 3 \/ d = 4 \/ d = 5 \/ d = 6
              \/ d = 7 \/ d = 8 \/ d = 9) by lia.
  repeat (destruct C as [->|C]; [reflexivity|]). subst d. reflexivity.
Qed.

Lemma needs_quote_str_of_int (n : N) : needs_quote (str_of_int n) = false.
Proof.
  induction n as [n IH] using (well_founded_induction N.lt_wf_0).
  destruct (N.lt_ge_cases n 10) as [Hs|Hb].
  - rewrite (str_of_int_small Hs). apply needs_quote_digit, Hs.
  - rewrite (str_of_int_big Hb), needs_quote_app, IH by (apply N.div_lt; lia).
    apply needs_quote_digit. apply N.mod_lt. lia.
Qed.

Lemma needs_quote_filename (prefix : string) (idx : N) :
  needs_quote prefix = false ->
  needs_quote (prefix ++ "_" ++ format_04d idx ++ ".jpg") = false.
Proof.
  intros H. unfold format_04d.
  rewrite !needs_quote_app, H, needs_quote_zeros, needs_quote_str_of_int.
  reflexivity.
Qed.

(** X14.  When the camera prefix holds no comma, quote or line feed, as
    the two configured camera names do, every filename goes into the
    table as it is, without quotes: the label column is the list of
    filenames character for character. *)
Theorem labels_need_no_quotes (reader : Reader) (topic prefix : string) :
  needs_quote prefix = false ->
  Forall (fun r => csv_field (img_filename r) = img_filename r)
         (extract_and_save_images reader topic prefix)
  /\ Forall (fun c => needs_quote (camera_name c) = false) CAMERA_CONFIG.
Proof.
  intros Hp. split; [|repeat constructor].
  pose proof (extract_numbering reader topic prefix) as H. cbv zeta in H.
  remember (extract_and_save_images reader topic prefix) as df.
  remember (seq 0 (List.length df)) as idxs. clear Heqidxs Heqdf.
  induction H as [|i r l l' [_ Hf] _ IH]; constructor; [|exact IH].
  unfold csv_field. rewrite Hf, (needs_quote_filename _ (N.of_nat i) Hp).
  reflexivity.
Qed.

Section WithRepr.

Variable float_repr : Qc -> string.

Lemma single_sample_records (image_df : list ImageRecord) (s : PoseSample) :
  interpolate_poses_to_images image_df [s]
  = map (fun img => mk_MatchedRecord (img_filename img) NaN NaN NaN NaN NaN NaN)
        image_df.
Proof.
  destruct image_df as [|i image_df]; [reflexivity|].
  unfold interpolate_poses_to_images. cbn [empty orb]. cbv zeta.
  apply map_ext. intros img.
  pose proof (fun chan => channel_single chan s (img_bag_timestamp_ns img)) as H.
  unfold channel_value, ts_col in H. cbn [map] in *.
  rewrite !H. reflexivity.
Qed.

(** X15.  A bag with a single pose sample yields a table without
    coordinates: the file written for a camera holds the header and, for
    each image in order, its filename followed by six empty fields. *)
Theorem single_sample_table_is_blank
        (image_df : list ImageRecord) (s : PoseSample) (output_path : string) :
  image_df <> [] ->
  snd (export_metashape_csv float_repr
         (interpolate_poses_to_images image_df [s]) output_path)
  = [ToCsv output_path
           ("label,longitude,latitude,altitude,yaw,pitch,roll"%string
            :: map (fun img => (csv_field (img_filename img) ++ ",,,,,,")%string)
                   image_df)].
Proof.
  intros Hne. rewrite single_sample_records. unfold export_metashape_csv.
  replace (empty (map (fun img => mk_MatchedRecord (img_filename img)
                                   NaN NaN NaN NaN NaN NaN) image_df))
    with false by (destruct image_df; [congruence|reflexivity]).
  cbn [snd]. unfold to_csv. rewrite !map_map.
  apply (f_equal (fun rows =>
                    [ToCsv output_path (csv_line export_columns :: rows)])).
  apply map_ext. intros img. reflexivity.
Qed.

End WithRepr.

End CsvMore.

(* ===================================================================== *)
(** ** main *)
(* ===================================================================== *)

Module MainFacts.

Import Interp1d Text Extract Spec Script.
Import Interpolation ExtractionMore.

Lemma filter_map_none {A B : Type} (f : B -> bool) (g : A -> B) (l : list A) :
  (forall x, f (g x) = false) -> filter f (map g l) = [].
Proof.
  intros H. induction l as [|a l IH]; [reflexivity|].
  cbn [map filter]. rewrite H. exact IH.
Qed.

Lemma filter_map_all {A B : Type} (f : B -> bool) (g : A -> B) (l : list A) :
  (forall x, f (g x) = true) -> filter f (map g l) = map g l.
Proof.
  intros H. induction l as [|a l IH]; [reflexivity|].
  cbn [map filter]. rewrite H, IH. reflexivity.
Qed.

Lemma filter_map_swap {A B : Type} (f : B -> bool) (g : A -> B) (l : list A) :
  filter f (map g l) = map g (filter (fun x => f (g x)) l).
Proof.
  induction l as [|a l IH]; [reflexivity|].
  cbn [map filter]. destruct (f (g a)); cbn [map]; rewrite IH; reflexivity.
Qed.

Section Main.

Variable os_path_join : string -> string -> string.
Variable path_join : string -> string -> string.
Variable float_repr : Qc -> string.

Lemma extract_io_files (reader : Reader) (topic output_dir prefix : string) :
  filter is_imwrite
         (snd (extract_and_save_images_io os_path_join reader topic
                                          output_dir prefix))
  = map (fun r => Imwrite (os_path_join output_dir (img_filename r)) 95)
        (extract_and_save_images reader topic prefix).
Proof.
  unfold extract_and_save_images_io, extract_and_save_images.
  destruct (negb (has_topic reader topic)); [reflexivity|].
  pose proof (image_loop_files os_path_join output_dir prefix
                               (messages_of reader topic) 0) as Hf.
  destruct (image_loop os_path_join output_dir prefix 0
                       (messages_of reader topic)) as [images events].
  cbn [snd filter is_imwrite] in *. exact Hf.
Qed.

(** One turn of the loop, in terms of the frame of its camera. *)
Lemma camera_turn_events (bag : Bag) (output_base : string)
      (pose_df : list PoseSample) (config : CameraConfig) :
  let image_dir := path_join output_base (camera_name config ++ "_images") in
  let csv_path :=
    path_join output_base (camera_name config ++ "_reference.csv") in
  let image_df :=
    extract_and_save_images (bag_cameras bag) (camera_topic config)
                            (camera_name config) in
  let events :=
    snd (extract_and_save_images_io os_path_join (bag_cameras bag)
           (camera_topic config) image_dir (camera_name config)) in
  camera_turn os_path_join path_join float_repr bag output_base pose_df config
  = if empty image_df then map OfCamera events
    else
      map OfCamera events
      ++ map OfExport
           (snd (export_metashape_csv float_repr
                   (interpolate_poses_to_images image_df pose_df) csv_path)).
Proof.
  cbv zeta. unfold camera_turn.
  rewrite <- (extract_io_frame os_path_join (bag_cameras bag)
                (camera_topic config)
                (path_join output_base (camera_name config ++ "_images"))
                (camera_name config)).
  destruct (extract_and_save_images_io os_path_join (bag_cameras bag)
              (camera_topic config)
              (path_join output_base (camera_name config ++ "_images"))
              (camera_name config)) as [image_df events].
  reflexivity.
Qed.

Lemma export_events_nonempty (matched_df : list MatchedRecord) (path : string) :
  matched_df <> [] ->
  snd (export_metashape_csv float_repr matched_df path)
  = [ToCsv path
           ("label,longitude,latitude,altitude,yaw,pitch,roll"%string
            :: map csv_line (map (export_row float_repr) matched_df))].
Proof. destruct matched_df; [congruence|reflexivity]. Qed.

Lemma interpolate_nonempty (image_df : list ImageRecord) (pose_df : list PoseSample) :
  image_df <> [] -> pose_df <> [] ->
  interpolate_poses_to_images image_df pose_df <> [].
Proof.
  intros Hi Hp E. apply (f_equal (map m_filename)) in E.
  rewrite (interpolate_filenames image_df Hp) in E.
  destruct image_df; [congruence|discriminate E].
Qed.

(** X16.  One camera, one turn of the loop, with a non-empty pose table:
    the jpeg files written are exactly the files of the camera's records,
    in order; a camera with images gets one table whose labels are those
    same filenames in the same order, one row per file; a camera without
    images gets no table. *)
Theorem table_lists_the_files_written
        (bag : Bag) (output_base : string) (pose_df : list PoseSample)
        (config : CameraConfig) :
  pose_df <> [] ->
  let image_dir := path_join output_base (camera_name config ++ "_images") in
  let csv_path :=
    path_join output_base (camera_name config ++ "_reference.csv") in
  let image_df :=
    extract_and_save_images (bag_cameras bag) (camera_topic config)
                            (camera_name config) in
  let rows :=
    map (export_row float_repr) (interpolate_poses_to_images image_df pose_df) in
  let events :=
    camera_turn os_path_join path_join float_repr bag output_base pose_df
                config in
  filter is_image_file events
  = map (fun r => OfCamera (Imwrite (os_path_join image_dir (img_filename r)) 95))
        image_df /\
  filter is_csv events
  = (if empty image_df then []
     else [OfExport
             (ToCsv csv_path
                    ("label,longitude,latitude,altitude,yaw,pitch,roll"%string
                     :: map csv_line rows))]) /\
  map (hd EmptyString) rows = map img_filename image_df /\
  filter is_savefig events = [].
Proof.
  intros Hp. cbv zeta. rewrite camera_turn_events. cbv zeta.
  set (image_df := extract_and_save_images (bag_cameras bag)
                     (camera_topic config) (camera_name config)).
  set (events := snd (extract_and_save_images_io os_path_join (bag_cameras bag)
                        (camera_topic config)
                        (path_join output_base (camera_name config ++ "_images"))
                        (camera_name config))).
  assert (Hfiles : filter is_image_file (map OfCamera events)
                   = map (fun r => OfCamera
                                     (Imwrite (os_path_join
                                                 (path_join output_base
                                                    (camera_name config ++ "_images"))
                                                 (img_filename r)) 95))
                         image_df).
  { rewrite filter_map_swap.
    change (fun x => is_image_file (OfCamera x)) with is_imwrite.
    unfold events. rewrite extract_io_files, map_map. reflexivity. }
  assert (Hlab : map (hd EmptyString)
                     (map (export_row float_repr)
                          (interpolate_poses_to_images image_df pose_df))
                 = map img_filename image_df).
  { rewrite map_map. rewrite <- (interpolate_filenames image_df Hp).
    apply map_ext. reflexivity. }
  destruct (empty image_df) eqn:E.
  - split; [exact Hfiles|]. split; [|split; [exact Hlab|]].
    + apply filter_map_none. reflexivity.
    + apply filter_map_none. reflexivity.
  - assert (Hi : image_df <> []) by (intros H; rewrite H in E; discriminate E).
    rewrite (export_events_nonempty _ (interpolate_nonempty Hi Hp)).
    rewrite !filter_app. cbn [map filter is_image_file is_csv is_savefig].
    rewrite Hfiles, app_nil_r.
    rewrite (filter_map_none is_csv OfCamera events (fun _ => eq_refl)).
    rewrite (filter_map_none is_savefig OfCamera events (fun _ => eq_refl)).
    repeat split. exact Hlab.
Qed.





End Main.

End MainFacts.

(* ===================================================================== *)
(** ** The further theorems at the fixtures *)
(* ===================================================================== *)

Module InstancesMore.

Import Interp1d Text Extract Stats Spec Fixture Script FixtureMore.
Import InterpolationMore ExtractionMore PosesFacts StatsMore CsvMore MainFacts.







Lemma timestamps_are_kept_small :
  has_topic small_reader "/science/image_raw" = true /\
  Forall2 (fun m r => img_bag_timestamp_ns r = snd (fst m))
          (messages_of small_reader "/science/image_raw")
          (extract_and_save_images small_reader "/science/image_raw" "down").
Proof.
  split; [reflexivity|].
  eapply Forall2_impl;
    [|apply (@timestamps_are_kept small_reader "/science/image_raw" "down"
               eq_refl)].
  intros m r [H _]. exact H.
Defined.

Lemma poses_keep_bag_order_small :
  time_ordered (map (fun m => snd (fst m)) (pose_messages small_pose_reader))
  = true /\
  sorted_by_timestamp (extract_poses small_pose_reader) = true.
Proof.
  split; [reflexivity|].
  exact (proj1 (@poses_keep_bag_order small_pose_reader eq_refl)).
Defined.



Lemma spans_are_bounded_two_samples :
  two_samples <> [] /\ (0 <= lat_span_m (location_stats two_samples))%R.
Proof.
  assert (Hne : two_samples <> []) by discriminate.
  split; [exact Hne|].
  destruct (spans_are_bounded Hne) as (_ & _ & H & _). exact H.
Defined.

Lemma labels_need_no_quotes_down :
  needs_quote "down" = false /\
  Forall (fun r => csv_field (img_filename r) = img_filename r)
         (extract_and_save_images small_reader "/science/image_raw" "down").
Proof.
  split; [reflexivity|].
  exact (proj1 (@labels_need_no_quotes small_reader "/science/image_raw" "down"
                  eq_refl)).
Defined.

Lemma single_sample_table_is_blank_at_7 :
  [image_at 7] <> [] /\
  snd (export_metashape_csv constant_repr
         (interpolate_poses_to_images [image_at 7] [sample_at 7 3 4])
         "down_reference.csv")
  = [ToCsv "down_reference.csv"
           ["label,longitude,latitude,altitude,yaw,pitch,roll";
            "down_0000.jpg,,,,,,"]%string].
Proof.
  assert (Hne : [image_at 7] <> []) by discriminate.
  split; [exact Hne|].
  exact (@single_sample_table_is_blank constant_repr [image_at 7]
           (sample_at 7 3 4) "down_reference.csv" Hne).
Defined.

Lemma table_lists_the_files_written_down :
  two_samples <> [] /\
  filter is_savefig
         (camera_turn slash_join slash_join constant_repr small_bag "out"
                      two_samples
                      (mk_CameraConfig "down" "/science/image_raw" false))
  = [].
Proof.
  assert (Hne : two_samples <> []) by discriminate.
  split; [exact Hne|].
  destruct (@table_lists_the_files_written slash_join slash_join constant_repr
              small_bag "out" two_samples
              (mk_CameraConfig "down" "/science/image_raw" false) Hne)
    as (_ & _ & _ & H).
  exact H.
Defined.


End InstancesMore.
